(** * Circuit Walker Sneakers: a shallow embedding of [main.py]

    The sketch animates ten NeoPixels in a fading rainbow whenever the
    LIS3DH accelerometer reports a single tap.  This development embeds the
    numeric helpers ([lerp], [HSV_to_RGB], [animate_rainbow]), the start-up
    calibration of the tap registers, the fault loop [error_sos] and the
    main loop, and proves the properties the design document states about
    them.

    Numbers.  Python's [float] values are embedded as exact rationals
    ([Q]); [int] values as [Z].  Rounding of binary floating point,
    infinities and NaN are outside the model.  [math.sin] and [math.pi]
    have no rational counterpart and are kept as parameters of the
    rendering code.

    Errors.  The two exceptions the arithmetic can raise (division by zero
    and an out-of-range sequence index) are explicit in the [result]
    type. *)

From Stdlib Require Import ZArith QArith Qround Lqa Lia List Bool String.
Import ListNotations.

Open Scope Q_scope.

(** ** A small error monad for Python exceptions *)

Inductive PyError : Type :=
| ZeroDivisionError
| IndexError.

Inductive result (A : Type) : Type :=
| ok (a : A)
| raise (e : PyError).

Arguments ok {A} a.
Arguments raise {A} e.

Definition bind {A B : Type} (m : result A) (k : A -> result B) : result B :=
  match m with
  | ok a => k a
  | raise e => raise e
  end.

Notation "x <- m ;; k" := (bind m (fun x => k))
  (at level 61, m at next level, right associativity).

(** ** Python built-ins used by the sketch *)

Module Py.

(** [a < b] on floats. *)
Definition lt (a b : Q) : bool := negb (Qle_bool b a).

(** [a / b]: true division, raising on a zero divisor. *)
Definition truediv (a b : Q) : result Q :=
  if Qeq_bool b 0 then raise ZeroDivisionError else ok (a / b).

(** [int(x)]: truncation toward zero. *)
Definition int (x : Q) : Z := Z.quot (Qnum x) (Z.pos (Qden x)).

(** [math.floor(x)] and [math.ceil(x)]. *)
Definition floor (x : Q) : Z := Qfloor x.
Definition ceil (x : Q) : Z := Qceiling x.

(** [max(a, b)]: the first argument is kept unless the second is
    strictly larger. *)
Definition max (a b : Q) : Q := if lt a b then b else a.

(** [a > b] on floats. *)
Definition gt (a b : Q) : bool := lt b a.

(** [a[i]] on a sequence: a negative index counts from the end, anything
    outside [-len, len) raises [IndexError]. *)
Definition getitem {A : Type} (a : list A) (i : Z) (dflt : A) : result A :=
  let n := Z.of_nat (List.length a) in
  let j := if (i <? 0)%Z then (i + n)%Z else i in
  if ((0 <=? j) && (j <? n))%Z then ok (nth (Z.to_nat j) a dflt)
  else raise IndexError.

(** [a[i] = x] for [i] produced by [range(len(a))]. *)
Fixpoint setitem {A : Type} (a : list A) (i : nat) (x : A) : result (list A) :=
  match a, i with
  | [], _ => raise IndexError
  | _ :: tl, O => ok (x :: tl)
  | hd :: tl, S i' => tl' <- setitem tl i' x ;; ok (hd :: tl')
  end.

End Py.

(** ** Gamma correction lookup table *)

Definition GAMMA8 : list Z := [
    0;  0;  0;  0;  0;  0;  0;  0;  0;  0;  0;  0;  0;  0;  0;  0;
    0;  0;  0;  0;  0;  0;  0;  0;  0;  0;  0;  0;  1;  1;  1;  1;
    1;  1;  1;  1;  1;  1;  1;  1;  1;  2;  2;  2;  2;  2;  2;  2;
    2;  3;  3;  3;  3;  3;  3;  3;  4;  4;  4;  4;  4;  5;  5;  5;
    5;  6;  6;  6;  6;  7;  7;  7;  7;  8;  8;  8;  9;  9;  9; 10;
   10; 10; 11; 11; 11; 12; 12; 13; 13; 13; 14; 14; 15; 15; 16; 16;
   17; 17; 18; 18; 19; 19; 20; 20; 21; 21; 22; 22; 23; 24; 24; 25;
   25; 26; 27; 27; 28; 29; 29; 30; 31; 32; 32; 33; 34; 35; 35; 36;
   37; 38; 39; 39; 40; 41; 42; 43; 44; 45; 46; 47; 48; 49; 50; 50;
   51; 52; 54; 55; 56; 57; 58; 59; 60; 61; 62; 63; 64; 66; 67; 68;
   69; 70; 72; 73; 74; 75; 77; 78; 79; 81; 82; 83; 85; 86; 87; 89;
   90; 92; 93; 95; 96; 98; 99;101;102;104;105;107;109;110;112;114;
  115;117;119;120;122;124;126;127;129;131;133;135;137;138;140;142;
  144;146;148;150;152;154;156;158;160;162;164;167;169;171;173;175;
  177;180;182;184;186;189;191;193;196;198;200;203;205;208;210;213;
  215;218;220;223;225;228;231;233;236;239;241;244;247;249;252;255
]%Z.

(** [GAMMA8[i]]. *)
Definition gamma (i : Z) : result Z := Py.getitem GAMMA8 i 0%Z.

(** ** Helper functions *)

Definition rgb : Type := (Z * Z * Z)%type.

(** [lerp(x, x0, x1, y0, y1)]. *)
Definition lerp (x x0 x1 y0 y1 : Q) : result Q :=
  slope <- Py.truediv (y1 - y0) (x1 - x0) ;;
  ok (y0 + (x - x0) * slope).

(** The sector selection of [HSV_to_RGB]: the linear channels [(r, g, b)]
    as they stand just before the gamma lookups. *)
Definition HSV_linear (h s v : Q) : Q * Q * Q :=
  if Qeq_bool s 0.0 then (v, v, v)
  else
    let h := h / 60.0 in
    let i := Py.floor h in
    let f := h - inject_Z i in
    let p := v * (1.0 - s) in
    let q := v * (1.0 - s * f) in
    let t := v * (1.0 - s * (1.0 - f)) in
    if (i =? 0)%Z then (v, t, p)
    else if (i =? 1)%Z then (q, v, p)
    else if (i =? 2)%Z then (p, v, t)
    else if (i =? 3)%Z then (p, q, v)
    else if (i =? 4)%Z then (t, p, v)
    else (v, p, q).

(** [HSV_to_RGB(h, s, v)]: sector selection followed by the three gamma
    lookups. *)
Definition HSV_to_RGB (h s v : Q) : result rgb :=
  let '(r, g, b) := HSV_linear h s v in
  r <- gamma (Py.int (255.0 * r)) ;;
  g <- gamma (Py.int (255.0 * g)) ;;
  b <- gamma (Py.int (255.0 * b)) ;;
  ok (r, g, b).

(** ** Configuration *)

(** The four constants at the top of the sketch.  They are meant to be
    edited by whoever builds the shoes, so the code below takes them as a
    record; [sketch_config] holds the values the file ships with. *)
Record Config : Type := {
  TAP_THRESHOLD_G : Q;
  TAP_TIME_LIMIT_S : Q;
  STEP_FLASH_S : Q;
  ANIMATION_FREQ_HZ : Q
}.

Definition sketch_config : Config := {|
  TAP_THRESHOLD_G := 1.5;
  TAP_TIME_LIMIT_S := 0.25;
  STEP_FLASH_S := 0.5;
  ANIMATION_FREQ_HZ := 1.0
|}.

(** ** Observable effects *)

(** Calls the sketch makes on its peripherals, in program order.  [Write]
    carries the frame that [pixels.write()] pushes to the strip. *)
Inductive event : Type :=
| Print (message : string)
| PrintValue (template : string) (value : Z)
| Fill (c : rgb)
| SetPixel (i : nat) (c : rgb)
| Write (frame : list rgb)
| Sleep (seconds : Q)
| SetClick (click : Z) (threshold : Z) (time_limit : Z).

Definition black : rgb := (0, 0, 0)%Z.
Definition red : rgb := (255, 0, 0)%Z.

(** [pixels.fill(c)]. *)
Definition fill (pixels : list rgb) (c : rgb) : list rgb :=
  map (fun _ => c) pixels.

(** ** Rainbow frame *)

Section Rendering.

(** [math.sin] and [math.pi]. *)
Variable sin : Q -> Q.
Variable pi : Q.

(** The body of [for i in range(pixels.n)] in [animate_rainbow], over
    the indices still to visit. *)
Fixpoint animate_pixels (a phase_offset remaining : Q) (indices : list nat)
    (pixels : list rgb) : result (list rgb * list event) :=
  match indices with
  | [] => ok (pixels, [])
  | i :: rest =>
      let phase := inject_Z (Z.of_nat i) * phase_offset in
      let x := sin (a + phase) in
      h <- lerp x (-1.0) 1.0 0.0 360.0 ;;
      c <- HSV_to_RGB h 1.0 remaining ;;
      pixels <- Py.setitem pixels i c ;;
      r <- animate_pixels a phase_offset remaining rest pixels ;;
      ok (fst r, SetPixel i c :: snd r)
  end.

(** [animate_rainbow(pixels, current, remaining)]. *)
Definition animate_rainbow (cfg : Config) (pixels : list rgb)
    (current remaining : Q) : result (list rgb * list event) :=
  let n := List.length pixels in
  let a := 2.0 * pi * ANIMATION_FREQ_HZ cfg * current in
  phase_offset <- Py.truediv (2.0 * pi) (inject_Z (Z.of_nat n)) ;;
  animate_pixels a phase_offset remaining (seq 0 n) pixels.

(** ** Main loop *)

(** The variables that live across iterations of [while True]. *)
Record LoopState : Type := {
  last : Q;
  pixels_animate : Q;
  pixels : list rgb
}.

(** One iteration of the main loop.  [current] is what
    [time.monotonic()] returns in this iteration and [single] the first
    component of [lis3dh.read_click()]. *)
Definition loop_body (cfg : Config) (st : LoopState) (current : Q)
    (single : bool) : result (LoopState * list event) :=
  let delta := current - last st in
  let pixels_animate := Py.max 0 (pixels_animate st - delta) in
  drawn <-
    (if Py.gt pixels_animate 0 then
       remaining <- Py.truediv pixels_animate (STEP_FLASH_S cfg) ;;
       animate_rainbow cfg (pixels st) current remaining
     else
       ok (fill (pixels st) black, [Fill black])) ;;
  let pixels := fst drawn in
  let pixels_animate :=
    if single then STEP_FLASH_S cfg else pixels_animate in
  ok ({| last := current; pixels_animate := pixels_animate;
         pixels := pixels |},
      snd drawn ++ [Write pixels; Sleep 0.01]).

(** Successive iterations, fed with the clock reading and the tap flag
    of each one.  The result keeps the events of every iteration
    apart, oldest first. *)
Fixpoint run (cfg : Config) (st : LoopState) (inputs : list (Q * bool))
    : result (LoopState * list (list event)) :=
  match inputs with
  | [] => ok (st, [])
  | (current, single) :: rest =>
      r <- loop_body cfg st current single ;;
      r' <- run cfg (fst r) rest ;;
      ok (fst r', snd r :: snd r')
  end.

End Rendering.


(** ** Fault signalling *)

(** One blink of [error_sos]: red for [period] seconds, then off for
    [period] seconds. *)
Definition sos_blink (pixels : list rgb) (period : Q) : list event :=
  [Fill red; Write (fill pixels red); Sleep period;
   Fill black; Write (fill pixels black); Sleep period].

(** One pass through the body of [while True] in [error_sos]: the message,
    three short blinks, three long blinks. *)
Definition error_sos_pass (pixels : list rgb) (message : string) : list event :=
  Print message
    :: List.concat (repeat (sos_blink pixels 0.25) 3)
    ++ List.concat (repeat (sos_blink pixels 0.50) 3).

(** ** Start-up *)

(** What the tap calibration (the two [if ... > 127] tests) comes to:
    either the call of [error_sos] with its message, which never returns,
    or the two register values handed to [lis3dh.set_click]. *)
Inductive Calibration : Type :=
| ErrorSOS (message : string)
| Calibrated (tap_threshold time_limit : Z).

Definition threshold_message : string :=
  "Tap threshold is too high to represent!".
Definition time_limit_message : string :=
  "Time limit is too high to represent!".

(** [int(math.ceil(TAP_THRESHOLD_G/(4.0/128.0)))]; [math.ceil] already
    returns an [int]. *)
Definition tap_threshold_code (cfg : Config) : Z :=
  Py.ceil (TAP_THRESHOLD_G cfg / (4.0 / 128.0)).

(** [int(math.ceil(TAP_TIME_LIMIT_S/(1.0/50.0)))]. *)
Definition time_limit_code (cfg : Config) : Z :=
  Py.ceil (TAP_TIME_LIMIT_S cfg / (1.0 / 50.0)).

Definition calibrate (cfg : Config) : Calibration :=
  let tap_threshold := tap_threshold_code cfg in
  if (tap_threshold >? 127)%Z then ErrorSOS threshold_message
  else
    let time_limit := time_limit_code cfg in
    if (time_limit >? 127)%Z then ErrorSOS time_limit_message
    else Calibrated tap_threshold time_limit.

(** ** The whole program as a machine *)

(** Where control is once the set-up code has run: inside the loop of
    [error_sos] or inside the main loop. *)
Inductive Machine : Type :=
| InErrorSOS (pixels : list rgb) (message : string)
| InMainLoop (st : LoopState).

(** The set-up code, from the creation of the ten NeoPixels to the two
    assignments before [while True].  [now] is the first reading of
    [time.monotonic()]. *)
Definition boot (cfg : Config) (now : Q) : Machine * list event :=
  let pixels := fill (repeat black 10) black in
  let shown := [Fill black; Write pixels] in
  match calibrate cfg with
  | ErrorSOS message => (InErrorSOS pixels message, shown)
  | Calibrated tap_threshold time_limit =>
      (InMainLoop {| last := now; pixels_animate := 0; pixels := pixels |},
       shown ++
       [PrintValue "Using tap threshold value: {}" tap_threshold;
        PrintValue "Using time limit value: {}" time_limit;
        SetClick 1 tap_threshold time_limit])
  end.

Section Program.

Variable sin : Q -> Q.
Variable pi : Q.

(** One pass of whichever loop the machine is in. *)
Definition step (cfg : Config) (m : Machine) (current : Q) (single : bool)
    : result (Machine * list event) :=
  match m with
  | InErrorSOS pixels message =>
      ok (InErrorSOS (fill pixels black) message,
          error_sos_pass pixels message)
  | InMainLoop st =>
      r <- loop_body sin pi cfg st current single ;;
      ok (InMainLoop (fst r), snd r)
  end.

Fixpoint steps (cfg : Config) (m : Machine) (inputs : list (Q * bool))
    : result Machine :=
  match inputs with
  | [] => ok m
  | (current, single) :: rest =>
      r <- step cfg m current single ;;
      steps cfg (fst r) rest
  end.

End Program.

(** ** The design document's reading of the gray path *)

(** Rounding to the nearest integer, halves upward. *)
Definition round_nearest (x : Q) : Z := Qfloor (x + 0.5).

(** The gray triple as the document words it:
    [(g, g, g)] with [g = gamma(round(255 v))]. *)
Definition gray_rounded (v : Q) : result rgb :=
  g <- gamma (round_nearest (255 * v)) ;; ok (g, g, g).

(** ** Vocabulary of the statements *)

Definition unit_interval (c : Q) : Prop := 0 <= c <= 1.

Definition byte (n : Z) : Prop := (0 <= n <= 255)%Z.

(** [time.monotonic()] never goes backwards: each reading is at least the
    one before it, starting from [t0]. *)
Fixpoint clock_monotone (t0 : Q) (inputs : list (Q * bool)) : Prop :=
  match inputs with
  | [] => True
  | (current, _) :: rest => t0 <= current /\ clock_monotone current rest
  end.

(** No iteration sees a tap. *)
Definition no_taps (inputs : list (Q * bool)) : Prop :=
  Forall (fun i => snd i = false) inputs.


(** The remaining animation time lies between zero and the flash
    duration. *)
Definition remaining_in_range (cfg : Config) (st : LoopState) : Prop :=
  0 <= pixels_animate st <= STEP_FLASH_S cfg.

(** The shipped configuration with another tap threshold and time
    window. *)
Definition config_with (threshold_g time_limit_s : Q) : Config := {|
  TAP_THRESHOLD_G := threshold_g;
  TAP_TIME_LIMIT_S := time_limit_s;
  STEP_FLASH_S := STEP_FLASH_S sketch_config;
  ANIMATION_FREQ_HZ := ANIMATION_FREQ_HZ sketch_config
|}.

Definition is_set_click (e : event) : bool :=
  match e with
  | SetClick _ _ _ => true
  | _ => false
  end.

(** [gamma(a), gamma(b), gamma(c)] as a color. *)
Definition gamma_rgb (a b c : Z) : result rgb :=
  r <- gamma a ;; g <- gamma b ;; b <- gamma c ;; ok (r, g, b).

(** ** Vocabulary of the further properties *)

(** The right-hand side of [pixels[i] = ...] in [animate_rainbow]: the
    color of pixel [i] for the angle [a], the phase step and the
    brightness. *)
Definition pixel_color (sin : Q -> Q) (a phase_offset remaining : Q)
    (i : nat) : result rgb :=
  h <- lerp (sin (a + inject_Z (Z.of_nat i) * phase_offset))
         (-1.0) 1.0 0.0 360.0 ;;
  HSV_to_RGB h 1.0 remaining.

(** The assignments [pixels[i] = c] for paired indices and colors. *)
Definition set_pixel_events (indices : list nat) (colors : list rgb)
    : list event :=
  map (fun ic => SetPixel (fst ic) (snd ic)) (combine indices colors).

(** Componentwise order on colors. *)
Definition rgb_le (c d : rgb) : Prop :=
  (fst (fst c) <= fst (fst d))%Z
  /\ (snd (fst c) <= snd (fst d))%Z
  /\ (snd c <= snd d)%Z.

(** A color whose three components are bytes. *)
Definition byte_color (c : rgb) : Prop :=
  byte (fst (fst c)) /\ byte (snd (fst c)) /\ byte (snd c).

Definition is_write (e : event) : bool :=
  match e with
  | Write _ => true
  | _ => false
  end.



(** * Properties *)

(** ** Python built-ins *)

Lemma lt_true_iff (a b : Q) : Py.lt a b = true <-> a < b.
Proof.
  unfold Py.lt. rewrite negb_true_iff, <- not_true_iff_false, Qle_bool_iff.
  split; [apply Qnot_le_lt | apply Qlt_not_le].
Qed.

Lemma lt_false_iff (a b : Q) : Py.lt a b = false <-> b <= a.
Proof.
  unfold Py.lt. rewrite negb_false_iff. apply Qle_bool_iff.
Qed.

(** [max(0, x)] is [x] itself when [x] is positive and the literal [0]
    otherwise. *)
Lemma max0_cases (x : Q) :
  (0 < x /\ Py.max 0 x = x) \/ (x <= 0 /\ Py.max 0 x = 0).
Proof.
  unfold Py.max. destruct (Py.lt 0 x) eqn:E.
  - left. split; [now apply lt_true_iff | reflexivity].
  - right. split; [now apply lt_false_iff | reflexivity].
Qed.

Lemma truediv_ok (a b : Q) : ~ b == 0 -> Py.truediv a b = ok (a / b).
Proof.
  intros Hb. unfold Py.truediv.
  destruct (Qeq_bool b 0) eqn:E; [|reflexivity].
  apply Qeq_bool_iff in E. contradiction.
Qed.

(** On a non-negative float [int] is the floor. *)
Lemma int_floor (x : Q) : 0 <= x -> Py.int x = Qfloor x.
Proof.
  destruct x as [n d]. unfold Qle, Py.int, Qfloor. simpl. intros H.
  apply Z.quot_div_nonneg; lia.
Qed.

Lemma floor_unit_scaled (c : Q) :
  0 <= c <= 1 -> (0 <= Qfloor (255.0 * c) <= 255)%Z.
Proof.
  intros [H0 H1]. split.
  - rewrite <- (Qfloor_Z 0). apply Qfloor_resp_le. unfold inject_Z. lra.
  - rewrite <- (Qfloor_Z 255). apply Qfloor_resp_le. unfold inject_Z. lra.
Qed.

Lemma int_unit_scaled (c : Q) :
  0 <= c <= 1 -> (0 <= Py.int (255.0 * c) <= 255)%Z.
Proof.
  intros H. rewrite int_floor by lra. now apply floor_unit_scaled.
Qed.

Lemma setitem_ok {A : Type} (a : list A) (i : nat) (x : A) :
  (i < List.length a)%nat ->
  exists a', Py.setitem a i x = ok a' /\ List.length a' = List.length a.
Proof.
  revert i. induction a as [|hd tl IH]; intros i Hi; simpl in Hi; [lia|].
  destruct i as [|i]; simpl.
  - eexists. split; reflexivity.
  - destruct (IH i) as [tl' [E L]]; [lia|].
    rewrite E. simpl. eexists. split; [reflexivity|]. simpl. now rewrite L.
Qed.

(** ** Gamma table *)

Lemma GAMMA8_length : List.length GAMMA8 = 256%nat.
Proof. reflexivity. Qed.

Lemma GAMMA8_bytes : forall g, In g GAMMA8 -> (0 <= g <= 255)%Z.
Proof.
  assert (H : forallb (fun g => (0 <=? g) && (g <=? 255))%Z GAMMA8 = true)
    by reflexivity.
  intros g Hg. rewrite forallb_forall in H. specialize (H g Hg).
  apply andb_true_iff in H. destruct H as [Ha Hb].
  apply Z.leb_le in Ha. apply Z.leb_le in Hb. lia.
Qed.

(** An index in [0, 255] is served by the table, with a byte. *)
Lemma gamma_ok (i : Z) :
  (0 <= i <= 255)%Z ->
  gamma i = ok (nth (Z.to_nat i) GAMMA8 0%Z)
  /\ (0 <= nth (Z.to_nat i) GAMMA8 0 <= 255)%Z.
Proof.
  intros Hi. split.
  - unfold gamma, Py.getitem. rewrite GAMMA8_length.
    destruct (i <? 0)%Z eqn:E; [apply Z.ltb_lt in E; lia|].
    replace ((0 <=? i) && (i <? Z.of_nat 256))%Z with true; [reflexivity|].
    symmetry. apply andb_true_iff. split; [apply Z.leb_le | apply Z.ltb_lt]; lia.
  - apply GAMMA8_bytes, nth_In. rewrite GAMMA8_length. lia.
Qed.

(** ** Color engine *)

Lemma unit_mult (a b : Q) :
  unit_interval a -> unit_interval b -> unit_interval (a * b).
Proof.
  unfold unit_interval. intros Ha Hb. split.
  - apply Qmult_le_0_compat; tauto.
  - assert (H : a * b <= 1 * 1)
      by (apply Qmult_le_compat_nonneg; split; tauto).
    lra.
Qed.

(** The fractional part [f = h - i] of the sector computation. *)
Lemma sector_fraction (h : Q) :
  let f := h / 60.0 - inject_Z (Py.floor (h / 60.0)) in 0 <= f /\ f < 1.
Proof.
  unfold Py.floor. cbv zeta.
  pose proof (Qfloor_le (h / 60.0)) as Hlo.
  pose proof (Qlt_floor (h / 60.0)) as Hhi.
  rewrite inject_Z_plus in Hhi. unfold inject_Z at 2 in Hhi.
  split; lra.
Qed.

(** The four candidate channels of [HSV_to_RGB] stay in [0, 1]. *)
Lemma channels_unit (h s v : Q) :
  unit_interval s -> unit_interval v ->
  let f := h / 60.0 - inject_Z (Py.floor (h / 60.0)) in
  unit_interval v
  /\ unit_interval (v * (1.0 - s))
  /\ unit_interval (v * (1.0 - s * f))
  /\ unit_interval (v * (1.0 - s * (1.0 - f))).
Proof.
  intros Hs Hv f. destruct (sector_fraction h) as [Hf0 Hf1]. fold f in Hf0, Hf1.
  assert (Hsf : unit_interval (s * f))
    by (apply unit_mult; [assumption | unfold unit_interval; lra]).
  assert (Hsg : unit_interval (s * (1.0 - f)))
    by (apply unit_mult; [assumption | unfold unit_interval; lra]).
  repeat split; try apply Hv;
    apply unit_mult; try assumption; unfold unit_interval in *; lra.
Qed.

Lemma HSV_linear_unit (h s v : Q) :
  unit_interval s -> unit_interval v ->
  unit_interval (fst (fst (HSV_linear h s v)))
  /\ unit_interval (snd (fst (HSV_linear h s v)))
  /\ unit_interval (snd (HSV_linear h s v)).
Proof.
  intros Hs Hv.
  destruct (channels_unit h s v Hs Hv) as [Cv [Cp [Cq Ct]]].
  unfold HSV_linear.
  destruct (Qeq_bool s 0.0); [simpl; tauto|].
  repeat match goal with
         | |- context [if ?b then _ else _] => destruct b
         end; simpl; tauto.
Qed.

(** Gamma lookup of a channel in [0, 1]. *)
Lemma gamma_channel (c : Q) :
  unit_interval c ->
  gamma (Py.int (255.0 * c)) = ok (nth (Z.to_nat (Qfloor (255.0 * c))) GAMMA8 0%Z)
  /\ byte (nth (Z.to_nat (Qfloor (255.0 * c))) GAMMA8 0%Z).
Proof.
  intros Hc. unfold unit_interval in Hc.
  rewrite int_floor by lra.
  apply gamma_ok. now apply floor_unit_scaled.
Qed.

Lemma HSV_to_RGB_bytes (h s v : Q) :
  unit_interval s -> unit_interval v ->
  exists r g b, HSV_to_RGB h s v = ok (r, g, b) /\ byte r /\ byte g /\ byte b.
Proof.
  intros Hs Hv.
  destruct (HSV_linear_unit h s v Hs Hv) as [Hr [Hg Hb]].
  unfold HSV_to_RGB. destruct (HSV_linear h s v) as [[r g] b]. simpl in *.
  destruct (gamma_channel r Hr) as [Er Br].
  destruct (gamma_channel g Hg) as [Eg Bg].
  destruct (gamma_channel b Hb) as [Eb Bb].
  rewrite Er. simpl. rewrite Eg. simpl. rewrite Eb. simpl.
  do 3 eexists. split; [reflexivity|]. tauto.
Qed.

(** The hue handed to [HSV_to_RGB] by [animate_rainbow]. *)
Lemma lerp_hue (x : Q) :
  lerp x (-1.0) 1.0 0.0 360.0
  = ok (0.0 + (x - (-1.0)) * ((360.0 - 0.0) / (1.0 - (-1.0)))).
Proof. reflexivity. Qed.

(** ** Rainbow frame *)

Lemma fill_repeat (pixels : list rgb) (c : rgb) :
  fill pixels c = repeat c (List.length pixels).
Proof.
  unfold fill. induction pixels as [|p tl IH]; simpl; [reflexivity|].
  now rewrite IH.
Qed.

Lemma fill_length (pixels : list rgb) (c : rgb) :
  List.length (fill pixels c) = List.length pixels.
Proof. unfold fill. apply length_map. Qed.

Section LoopFacts.

Variable sin : Q -> Q.
Variable pi : Q.
Variable cfg : Config.

(** The pixel loop of [animate_rainbow] runs to its end whenever the
    brightness is in [0, 1] and the indices are those of the strip,
    whatever [math.sin] returns. *)
Lemma animate_pixels_ok (a phase_offset remaining : Q) (indices : list nat) :
  unit_interval remaining ->
  forall pixels,
    Forall (fun i => (i < List.length pixels)%nat) indices ->
    exists frame evs,
      animate_pixels sin a phase_offset remaining indices pixels
      = ok (frame, evs)
      /\ List.length frame = List.length pixels.
Proof.
  intros Hrem. induction indices as [|i rest IH]; intros pixels Hidx.
  - simpl. do 2 eexists. split; reflexivity.
  - inversion Hidx as [|? ? Hi Hrest]; subst.
    cbn [animate_pixels]. rewrite lerp_hue. cbn [bind].
    match goal with
    | |- context [HSV_to_RGB ?h 1.0 remaining] =>
        destruct (HSV_to_RGB_bytes h 1.0 remaining) as [r [g [b [E _]]]];
        [unfold unit_interval; lra | assumption | rewrite E]
    end.
    cbn [bind].
    destruct (setitem_ok pixels i (r, g, b) Hi) as [pixels' [Es Ls]].
    rewrite Es. cbn [bind].
    destruct (IH pixels') as [frame [evs [Er Lr]]].
    { rewrite Ls. assumption. }
    rewrite Er. cbn [bind fst snd].
    do 2 eexists. split; [reflexivity|]. congruence.
Qed.

Lemma animate_rainbow_ok (pixels : list rgb) (current remaining : Q) :
  pixels <> [] -> unit_interval remaining ->
  exists frame evs,
    animate_rainbow sin pi cfg pixels current remaining = ok (frame, evs)
    /\ List.length frame = List.length pixels.
Proof.
  intros Hne Hrem. unfold animate_rainbow.
  rewrite truediv_ok.
  - cbn [bind]. apply animate_pixels_ok; [assumption|].
    apply Forall_forall. intros i Hi. apply in_seq in Hi. lia.
  - destruct pixels as [|p tl]; [contradiction|].
    intros H. unfold Qeq in H. simpl in H. lia.
Qed.

(** One iteration of the main loop, from a state whose remaining time
    does not exceed the flash duration, with a clock that has not gone
    backwards: it completes, stores the clock reading, keeps the strip
    length, updates the remaining time as the source writes it and, when
    no time remains, draws the frame with [pixels.fill((0,0,0))]. *)
Lemma loop_body_spec (st : LoopState) (current : Q) (single : bool) :
  pixels st <> [] ->
  last st <= current ->
  (0 < pixels_animate st -> pixels_animate st <= STEP_FLASH_S cfg) ->
  let decayed := Py.max 0 (pixels_animate st - (current - last st)) in
  exists st' evs,
    loop_body sin pi cfg st current single = ok (st', evs)
    /\ last st' = current
    /\ List.length (pixels st') = List.length (pixels st)
    /\ pixels_animate st' = (if single then STEP_FLASH_S cfg else decayed)
    /\ (decayed <= 0 ->
        pixels st' = fill (pixels st) black
        /\ evs = [Fill black; Write (fill (pixels st) black); Sleep 0.01]).
Proof.
  intros Hne Hclk Hpa decayed. unfold loop_body. fold decayed.
  destruct (max0_cases (pixels_animate st - (current - last st)))
    as [[Hpos E] | [Hneg E]]; fold decayed in E.
  - assert (Hgt : Py.gt decayed 0 = true).
    { unfold Py.gt. apply lt_true_iff. rewrite E. exact Hpos. }
    rewrite Hgt.
    assert (Hle : pixels_animate st <= STEP_FLASH_S cfg) by (apply Hpa; lra).
    assert (HF : 0 < STEP_FLASH_S cfg) by lra.
    rewrite truediv_ok by lra. cbn [bind].
    destruct (animate_rainbow_ok (pixels st) current
                (decayed / STEP_FLASH_S cfg) Hne) as [frame [evs [Ea La]]].
    { rewrite E. split.
      - apply Qle_shift_div_l; lra.
      - apply Qle_shift_div_r; lra. }
    rewrite Ea. cbn [bind fst snd].
    do 2 eexists. split; [reflexivity|]. cbn [last pixels pixels_animate].
    split; [reflexivity|]. split; [assumption|]. split; [reflexivity|].
    intros H0. rewrite E in H0. lra.
  - assert (Hgt : Py.gt decayed 0 = false).
    { unfold Py.gt. apply lt_false_iff. rewrite E. lra. }
    rewrite Hgt. cbn [bind fst snd].
    do 2 eexists. split; [reflexivity|]. cbn [last pixels pixels_animate].
    split; [reflexivity|]. split; [apply fill_length|].
    split; [reflexivity|]. intros _. split; reflexivity.
Qed.

End LoopFacts.

(** * The color engine's claims *)

(** C4, as the code has it.  With saturation zero and a value [v] in
    [0, 1], [HSV_to_RGB] returns the gray triple [(g, g, g)] for every hue,
    where [g] is the gamma table entry at the index [255 v] truncated to an
    integer (the floor, as [v] is not negative), and [g] is a byte. *)
Theorem HSV_to_RGB_gray_truncates (h s v : Q) :
  s == 0 -> unit_interval v ->
  let g := nth (Z.to_nat (Qfloor (255 * v))) GAMMA8 0%Z in
  HSV_to_RGB h s v = ok (g, g, g)
  /\ gamma (Qfloor (255 * v)) = ok g
  /\ byte g.
Proof.
  intros Hs Hv g.
  assert (Hfl : Qfloor (255.0 * v) = Qfloor (255 * v))
    by (apply Qfloor_comp; lra).
  destruct (gamma_channel v Hv) as [E B].
  rewrite Hfl in E, B. fold g in E, B.
  assert (Hz : Qeq_bool s 0.0 = true) by (apply Qeq_bool_iff; lra).
  split; [|split; [|exact B]].
  - unfold HSV_to_RGB, HSV_linear. rewrite Hz. rewrite E. reflexivity.
  - rewrite <- E. f_equal. rewrite <- Hfl. symmetry. apply int_floor.
    unfold unit_interval in Hv. lra.
Qed.

Lemma HSV_to_RGB_gray_truncates_witness :
  HSV_to_RGB 240 0 0.375 = ok (16, 16, 16)%Z.
Proof.
  apply (HSV_to_RGB_gray_truncates 240 0 0.375).
  - reflexivity.
  - unfold unit_interval, Qle; simpl; lia.
Defined.

(** C4, as the document words it, fails.  At [v = 0.375] the scaled
    channel is [95.625]: the code looks up index 95 and returns 16, while
    rounding to the nearest index gives 96 and the table entry 17. *)
Lemma HSV_to_RGB_gray_not_rounded :
  unit_interval 0.375
  /\ HSV_to_RGB 0 0 0.375 = ok (16, 16, 16)%Z
  /\ gray_rounded 0.375 = ok (17, 17, 17)%Z
  /\ HSV_to_RGB 0 0 0.375 <> gray_rounded 0.375.
Proof.
  split; [unfold unit_interval, Qle; simpl; lia|].
  split; [reflexivity|]. split; [reflexivity|].
  vm_compute. discriminate.
Qed.

(** C5.  At full saturation and value the six sector boundaries give the
    gamma-corrected primaries and secondaries: red, yellow, green, cyan,
    blue, magenta; the table sends 255 to 255 and 0 to 0. *)
Theorem HSV_to_RGB_sector_boundaries :
  HSV_to_RGB 0 1 1 = gamma_rgb 255 0 0
  /\ HSV_to_RGB 60 1 1 = gamma_rgb 255 255 0
  /\ HSV_to_RGB 120 1 1 = gamma_rgb 0 255 0
  /\ HSV_to_RGB 180 1 1 = gamma_rgb 0 255 255
  /\ HSV_to_RGB 240 1 1 = gamma_rgb 0 0 255
  /\ HSV_to_RGB 300 1 1 = gamma_rgb 255 0 255
  /\ gamma 255 = ok 255%Z
  /\ gamma 0 = ok 0%Z.
Proof. repeat split; vm_compute; reflexivity. Qed.




(** C10.  For any hue at all and saturation and value in [0, 1]: the
    channels [v], [p], [q], [t] lie in [0, 1]; their gamma indices
    [int(255 c)] lie in [0, 255]; [HSV_to_RGB] returns three bytes without
    raising; and with a non-zero saturation every sector index outside
    0..4 is served by the trailing [else], which selects [(v, p, q)]. *)
Theorem HSV_to_RGB_total (h s v : Q) :
  unit_interval s -> unit_interval v ->
  let i := Py.floor (h / 60.0) in
  let f := h / 60.0 - inject_Z i in
  let p := v * (1.0 - s) in
  let q := v * (1.0 - s * f) in
  let t := v * (1.0 - s * (1.0 - f)) in
  (unit_interval v /\ unit_interval p /\ unit_interval q /\ unit_interval t)
  /\ (byte (Py.int (255.0 * v)) /\ byte (Py.int (255.0 * p))
      /\ byte (Py.int (255.0 * q)) /\ byte (Py.int (255.0 * t)))
  /\ (exists r g b,
        HSV_to_RGB h s v = ok (r, g, b) /\ byte r /\ byte g /\ byte b)
  /\ (Qeq_bool s 0.0 = false -> (i < 0 \/ 4 < i)%Z ->
      HSV_linear h s v = (v, p, q)).
Proof.
  intros Hs Hv i f p q t.
  destruct (channels_unit h s v Hs Hv) as [Cv [Cp [Cq Ct]]].
  fold i in Cq, Ct. fold f in Cq, Ct. fold p in Cp. fold q in Cq. fold t in Ct.
  split; [tauto|]. split.
  { unfold byte. repeat split; apply int_unit_scaled; assumption. }
  split; [apply HSV_to_RGB_bytes; assumption|].
  intros Hnz Hi. unfold HSV_linear. rewrite Hnz. fold i.
  repeat match goal with
         | |- context [(i =? ?k)%Z] =>
             destruct (Z.eqb_spec i k); [lia|]
         end.
  reflexivity.
Qed.

Lemma HSV_to_RGB_total_witness :
  exists r g b, HSV_to_RGB 360 1 1 = ok (r, g, b) /\ byte r /\ byte g /\ byte b.
Proof.
  apply (HSV_to_RGB_total 360 1 1); unfold unit_interval, Qle; simpl; lia.
Defined.

(** At hue 360 the sector index is 6: the trailing [else] is taken and the
    color is magenta, where hue 0 gives red. *)
Example HSV_to_RGB_at_360 :
  HSV_to_RGB 360 1 1 = ok (255, 0, 255)%Z /\ HSV_to_RGB 0 1 1 = ok (255, 0, 0)%Z.
Proof. split; reflexivity. Qed.

(** * The calibration's claims *)

Lemma calibrate_cases (cfg : Config) :
  ((tap_threshold_code cfg > 127)%Z
   /\ calibrate cfg = ErrorSOS threshold_message)
  \/ ((tap_threshold_code cfg <= 127)%Z /\ (time_limit_code cfg > 127)%Z
      /\ calibrate cfg = ErrorSOS time_limit_message)
  \/ ((tap_threshold_code cfg <= 127)%Z /\ (time_limit_code cfg <= 127)%Z
      /\ calibrate cfg
         = Calibrated (tap_threshold_code cfg) (time_limit_code cfg)).
Proof.
  unfold calibrate.
  destruct (tap_threshold_code cfg >? 127)%Z eqn:Ea.
  - left. split; [apply Z.gtb_gt; assumption | reflexivity].
  - assert (tap_threshold_code cfg <= 127)%Z
      by (rewrite Z.gtb_ltb in Ea; apply Z.ltb_ge in Ea; assumption).
    destruct (time_limit_code cfg >? 127)%Z eqn:Eb.
    + right. left. repeat split; [assumption | apply Z.gtb_gt; assumption].
    + right. right. repeat split; [assumption|].
      rewrite Z.gtb_ltb in Eb. apply Z.ltb_ge in Eb. assumption.
Qed.

(** The fault loop is never left: from [InErrorSOS] every further pass
    stays there, with the same message. *)
Lemma error_sos_forever (sin : Q -> Q) (pi : Q) (cfg : Config)
    (message : string) (inputs : list (Q * bool)) :
  forall pixels,
  exists pixels',
    steps sin pi cfg (InErrorSOS pixels message) inputs
    = ok (InErrorSOS pixels' message).
Proof.
  induction inputs as [|[current single] rest IH]; intros pixels.
  - exists pixels. reflexivity.
  - simpl. apply IH.
Qed.

(** C6.  With the shipped configuration (1.5 g, 0.25 s, range 4 g, 50 Hz)
    the threshold code is 48 and the time-limit code 13; neither test
    fires, and the machine enters the main loop after handing 48 and 13 to
    [set_click]. *)
Theorem calibrate_sketch_config :
  tap_threshold_code sketch_config = 48%Z
  /\ time_limit_code sketch_config = 13%Z
  /\ (48 <= 127)%Z /\ (13 <= 127)%Z
  /\ calibrate sketch_config = Calibrated 48 13
  /\ forall now,
       exists st evs,
         boot sketch_config now = (InMainLoop st, evs)
         /\ In (SetClick 1 48 13) evs.
Proof.
  repeat split; try (vm_compute; congruence).
  intros now. do 2 eexists. split; [reflexivity|].
  simpl. tauto.
Qed.

(** C7, as the code has it.  The start-up ends in [error_sos] with the
    threshold message exactly when the threshold code exceeds 127, and with
    the time-limit message exactly when the threshold code is at most 127
    and the time-limit code exceeds 127 (the threshold is tested first and
    [error_sos] does not return).  5.0 g gives the code 160 and the
    threshold message.  Either way the machine is in the fault loop without
    having called [set_click], and it stays there. *)
Theorem calibrate_errors (cfg : Config) :
  (calibrate cfg = ErrorSOS threshold_message
   <-> (tap_threshold_code cfg > 127)%Z)
  /\ (calibrate cfg = ErrorSOS time_limit_message
      <-> (tap_threshold_code cfg <= 127)%Z /\ (time_limit_code cfg > 127)%Z)
  /\ (tap_threshold_code (config_with 5.0 0.25) = 160%Z
      /\ calibrate (config_with 5.0 0.25) = ErrorSOS threshold_message)
  /\ (forall message now,
        calibrate cfg = ErrorSOS message ->
        exists pixels evs,
          boot cfg now = (InErrorSOS pixels message, evs)
          /\ existsb is_set_click evs = false
          /\ forall sin pi inputs,
               exists pixels',
                 steps sin pi cfg (InErrorSOS pixels message) inputs
                 = ok (InErrorSOS pixels' message)).
Proof.
  assert (Hne : threshold_message <> time_limit_message)
    by (vm_compute; discriminate).
  split; [|split; [|split]].
  - destruct (calibrate_cases cfg) as [[H E] | [[H1 [H2 E]] | [H1 [H2 E]]]];
      rewrite E; split; intros H0; try reflexivity; try lia;
      try discriminate; try (inversion H0; congruence).
  - destruct (calibrate_cases cfg) as [[H E] | [[H1 [H2 E]] | [H1 [H2 E]]]];
      rewrite E; split; intros H0; try tauto; try lia;
      try discriminate; try (inversion H0; congruence).
  - split; reflexivity.
  - intros message now E. unfold boot. rewrite E.
    do 2 eexists. split; [reflexivity|]. split; [reflexivity|].
    intros sin pi inputs. apply error_sos_forever.
Qed.

(** C7, as the document words it, fails.  With 5.0 g and 3.0 s both codes
    exceed 127 (160 and 150), yet the failure is the threshold one, not the
    time-limit one. *)
Lemma time_limit_error_masked :
  (time_limit_code (config_with 5.0 3.0) > 127)%Z
  /\ calibrate (config_with 5.0 3.0) = ErrorSOS threshold_message
  /\ calibrate (config_with 5.0 3.0) <> ErrorSOS time_limit_message.
Proof.
  split; [reflexivity|]. split; [reflexivity|].
  vm_compute. discriminate.
Qed.

(** C8, as the code has it.  When the configured threshold and time window
    are not negative and the calibration goes through, both codes lie in
    [0, 127]. *)
Theorem calibrated_codes_7bit (cfg : Config) (tap_threshold time_limit : Z) :
  0 <= TAP_THRESHOLD_G cfg ->
  0 <= TAP_TIME_LIMIT_S cfg ->
  calibrate cfg = Calibrated tap_threshold time_limit ->
  (0 <= tap_threshold <= 127)%Z /\ (0 <= time_limit <= 127)%Z.
Proof.
  intros Hg Ht E.
  destruct (calibrate_cases cfg) as [[H E'] | [[H1 [H2 E']] | [H1 [H2 E']]]];
    rewrite E' in E; try discriminate.
  inversion E; subst.
  assert (0 <= tap_threshold_code cfg)%Z.
  { unfold tap_threshold_code, Py.ceil. rewrite <- (Qceiling_Z 0).
    apply Qceiling_resp_le. unfold inject_Z.
    apply Qle_shift_div_l; [reflexivity | lra]. }
  assert (0 <= time_limit_code cfg)%Z.
  { unfold time_limit_code, Py.ceil. rewrite <- (Qceiling_Z 0).
    apply Qceiling_resp_le. unfold inject_Z.
    apply Qle_shift_div_l; [reflexivity | lra]. }
  lia.
Qed.

Lemma calibrated_codes_7bit_witness :
  (0 <= 48 <= 127)%Z /\ (0 <= 13 <= 127)%Z.
Proof.
  apply (calibrated_codes_7bit sketch_config 48 13).
  - unfold Qle; simpl; lia.
  - unfold Qle; simpl; lia.
  - reflexivity.
Defined.

(** C8, as the document words it, fails.  A threshold of -1 g passes both
    tests (only "too high" is tested) with the code -32. *)
Lemma negative_threshold_code :
  calibrate (config_with (-1.0) 0.25) = Calibrated (-32) 13
  /\ ~ (0 <= -32 <= 127)%Z.
Proof. split; [reflexivity | lia]. Qed.

(** * The main loop's claims *)

Section MainLoop.

Variable sin : Q -> Q.
Variable pi : Q.
Variable cfg : Config.





(** The range of the remaining time is kept by every run with a clock
    that does not go backwards, and every such run completes. *)
Lemma run_keeps_range (inputs : list (Q * bool)) :
  0 <= STEP_FLASH_S cfg ->
  forall st,
    pixels st <> [] ->
    remaining_in_range cfg st ->
    clock_monotone (last st) inputs ->
    exists st' trace,
      run sin pi cfg st inputs = ok (st', trace)
      /\ remaining_in_range cfg st'
      /\ List.length (pixels st') = List.length (pixels st).
Proof.
  intros HF. induction inputs as [|[current single] rest IH];
    intros st Hne [Hlo Hhi] Hclk.
  - do 2 eexists. split; [reflexivity|]. split; [split; assumption|reflexivity].
  - destruct Hclk as [Hc Hrest].
    destruct (loop_body_spec sin pi cfg st current single Hne Hc)
      as [st1 [evs [E [El [Ell [Ep _]]]]]]; [intros _; exact Hhi|].
    cbn [run]. rewrite E. cbn [bind fst snd].
    destruct (IH st1) as [st' [trace [Er [Hr Hl]]]].
    + intros H0. rewrite H0 in Ell. simpl in Ell.
      destruct (pixels st); [contradiction | discriminate].
    + unfold remaining_in_range. rewrite Ep. destruct single; [lra|].
      destruct (max0_cases (pixels_animate st - (current - last st)))
        as [[Hpos Em] | [Hneg Em]]; rewrite Em; lra.
    + rewrite El. assumption.
    + rewrite Er. cbn [bind fst snd]. do 2 eexists.
      split; [reflexivity|]. split; [assumption | congruence].
Qed.

End MainLoop.

(** C2.  State invariant.  With a non-negative flash duration and a clock
    that does not go backwards: the main loop is entered with a remaining
    time of 0; every run of iterations from there completes and leaves the
    remaining time in [0, flash duration]; and each single iteration from
    a state in that range sets the remaining time to the flash duration on
    a tap and otherwise to the old value less the elapsed time, floored at
    0, which is again in the range. *)
Theorem remaining_time_invariant (sin : Q -> Q) (pi : Q) (cfg : Config)
    (now : Q) (st0 : LoopState) (evs0 : list event)
    (inputs : list (Q * bool)) :
  0 <= STEP_FLASH_S cfg ->
  boot cfg now = (InMainLoop st0, evs0) ->
  clock_monotone now inputs ->
  pixels_animate st0 = 0
  /\ (exists st' trace,
        run sin pi cfg st0 inputs = ok (st', trace)
        /\ remaining_in_range cfg st')
  /\ (forall st current single,
        pixels st <> [] ->
        remaining_in_range cfg st ->
        last st <= current ->
        exists st' evs,
          loop_body sin pi cfg st current single = ok (st', evs)
          /\ pixels_animate st'
             = (if single then STEP_FLASH_S cfg
                else Py.max 0 (pixels_animate st - (current - last st)))
          /\ remaining_in_range cfg st').
Proof.
  intros HF Hboot Hclk.
  assert (Hst : st0 = {| last := now; pixels_animate := 0;
                         pixels := fill (repeat black 10) black |}).
  { unfold boot in Hboot. destruct (calibrate cfg); inversion Hboot.
    reflexivity. }
  subst st0. split; [reflexivity|]. split.
  - destruct (run_keeps_range sin pi cfg inputs HF
                {| last := now; pixels_animate := 0;
                   pixels := fill (repeat black 10) black |})
      as [st' [trace [E [R _]]]].
    + simpl. discriminate.
    + unfold remaining_in_range. simpl. lra.
    + exact Hclk.
    + do 2 eexists. split; eassumption.
  - intros st current single Hne [Hlo Hhi] Hc.
    destruct (loop_body_spec sin pi cfg st current single Hne Hc)
      as [st' [evs [E [_ [_ [Ep _]]]]]]; [intros _; exact Hhi|].
    do 2 eexists. split; [exact E|]. split; [exact Ep|].
    unfold remaining_in_range. rewrite Ep. destruct single; [lra|].
    destruct (max0_cases (pixels_animate st - (current - last st)))
      as [[Hpos Em] | [Hneg Em]]; rewrite Em; lra.
Qed.

Lemma remaining_time_invariant_witness :
  exists st' trace,
    run (fun _ => 0) 3.14 sketch_config
      {| last := 0; pixels_animate := 0; pixels := repeat black 10 |}
      [(0.01, false); (0.02, true); (0.03, false)]
    = ok (st', trace)
    /\ remaining_in_range sketch_config st'.
Proof.
  apply (remaining_time_invariant (fun _ => 0) 3.14 sketch_config 0 _
           (snd (boot sketch_config 0))).
  - unfold Qle; simpl; lia.
  - reflexivity.
  - simpl. repeat split; unfold Qle; simpl; lia.
Defined.

(** Whatever the state before, an iteration that sees a tap and completes
    leaves exactly the flash duration. *)
Lemma tap_sets_flash_duration (sin : Q -> Q) (pi : Q) (cfg : Config)
    (st st' : LoopState) (current : Q) (evs : list event) :
  loop_body sin pi cfg st current true = ok (st', evs) ->
  pixels_animate st' = STEP_FLASH_S cfg.
Proof.
  unfold loop_body. intros H.
  match type of H with
  | bind ?m _ = _ => destruct m as [drawn|e]; [|discriminate]
  end.
  cbn [bind] in H. inversion H. reflexivity.
Qed.

(** C3.  Trigger restart law.  From any state whose remaining time is
    positive (and, as the loop keeps it, at most the flash duration), an
    iteration that sees a tap completes and leaves the remaining time at
    exactly the flash duration, whatever it was before; a tap in the next
    iteration leaves it there again: nothing is added or queued. *)
Theorem trigger_restarts (sin : Q -> Q) (pi : Q) (cfg : Config)
    (st : LoopState) (current : Q) :
  pixels st <> [] ->
  last st <= current ->
  0 < pixels_animate st <= STEP_FLASH_S cfg ->
  exists st' evs,
    loop_body sin pi cfg st current true = ok (st', evs)
    /\ pixels_animate st' = STEP_FLASH_S cfg
    /\ forall current', current <= current' ->
         exists st'' evs',
           loop_body sin pi cfg st' current' true = ok (st'', evs')
           /\ pixels_animate st'' = STEP_FLASH_S cfg.
Proof.
  intros Hne Hc [Hpos Hhi].
  destruct (loop_body_spec sin pi cfg st current true Hne Hc)
    as [st' [evs [E [El [Ell [Ep _]]]]]]; [intros _; exact Hhi|].
  exists st', evs. split; [exact E|]. split; [exact Ep|].
  intros current' Hc'.
  destruct (loop_body_spec sin pi cfg st' current' true)
    as [st'' [evs' [E' [_ [_ [Ep' _]]]]]].
  - intros H0. rewrite H0 in Ell. simpl in Ell.
    destruct (pixels st); [contradiction | discriminate].
  - rewrite El. exact Hc'.
  - intros _. rewrite Ep. lra.
  - exists st'', evs'. split; assumption.
Qed.

Lemma trigger_restarts_witness :
  exists st' evs,
    loop_body (fun _ => 0) 3.14 sketch_config
      {| last := 1; pixels_animate := 0.2; pixels := repeat black 10 |}
      1.01 true
    = ok (st', evs)
    /\ pixels_animate st' = 0.5.
Proof.
  destruct (trigger_restarts (fun _ => 0) 3.14 sketch_config
              {| last := 1; pixels_animate := 0.2;
                 pixels := repeat black 10 |} 1.01)
    as [st' [evs [E [Ep _]]]].
  - simpl. discriminate.
  - unfold Qle; simpl; lia.
  - simpl. split; [unfold Qlt | unfold Qle]; simpl; lia.
  - exists st', evs. split; assumption.
Defined.


(** * Further properties of the code *)

(** ** Gamma table *)

Lemma GAMMA8_step (n : nat) :
  (n < 255)%nat -> (nth n GAMMA8 0 <= nth (S n) GAMMA8 0)%Z.
Proof.
  assert (H : forallb (fun n => (nth n GAMMA8 0 <=? nth (S n) GAMMA8 0)%Z)
                (seq 0 255) = true) by reflexivity.
  intros Hn. rewrite forallb_forall in H.
  apply Z.leb_le, H, in_seq. lia.
Qed.

Lemma GAMMA8_sorted (m n : nat) :
  (m <= n)%nat -> (n <= 255)%nat -> (nth m GAMMA8 0 <= nth n GAMMA8 0)%Z.
Proof.
  induction 1 as [|n Hmn IH]; intros Hn; [lia|].
  etransitivity; [apply IH; lia | apply GAMMA8_step; lia].
Qed.

(** X1.  The gamma table is non-decreasing over its whole index range and
    exact at both ends: a brighter index never gives a dimmer byte, 0 stays
    0 and 255 stays 255. *)
Theorem gamma_monotone (i j : Z) :
  (0 <= i <= j)%Z -> (j <= 255)%Z ->
  exists gi gj,
    gamma i = ok gi /\ gamma j = ok gj /\ (gi <= gj)%Z
    /\ gamma 0 = ok 0%Z /\ gamma 255 = ok 255%Z.
Proof.
  intros Hij Hj.
  destruct (gamma_ok i) as [Ei _]; [lia|].
  destruct (gamma_ok j) as [Ej _]; [lia|].
  do 2 eexists. split; [exact Ei|]. split; [exact Ej|].
  split; [|split; reflexivity].
  apply GAMMA8_sorted; lia.
Qed.

Lemma gamma_monotone_witness :
  exists gi gj, gamma 100 = ok gi /\ gamma 200 = ok gj /\ (gi <= gj)%Z.
Proof.
  destruct (gamma_monotone 100 200) as [gi [gj [Ei [Ej [H _]]]]]; try lia.
  exists gi, gj. tauto.
Defined.

(** [GAMMA8[i]] either succeeds or raises [IndexError]. *)
Lemma gamma_cases (i : Z) :
  (exists g, gamma i = ok g) \/ gamma i = raise IndexError.
Proof.
  unfold gamma, Py.getitem.
  match goal with
  | |- context [if ?b then ok _ else _] => destruct b
  end; [left; eexists; reflexivity | right; reflexivity].
Qed.

Lemma gamma_above (i : Z) : (256 <= i)%Z -> gamma i = raise IndexError.
Proof.
  intros Hi. unfold gamma, Py.getitem. rewrite GAMMA8_length.
  destruct (i <? 0)%Z eqn:E; [apply Z.ltb_lt in E; lia|].
  replace ((0 <=? i) && (i <? Z.of_nat 256))%Z with false; [reflexivity|].
  symmetry. apply andb_false_iff. right. apply Z.ltb_ge. lia.
Qed.

(** ** More on [int] *)

Lemma int_zero (x : Q) : x == 0 -> Py.int x = 0%Z.
Proof.
  destruct x as [n d]. unfold Qeq, Py.int. simpl. intros H.
  replace n with 0%Z by lia. apply Z.quot_0_l. lia.
Qed.

(** On a non-positive float [int] is the ceiling. *)
Lemma int_ceiling (x : Q) : x <= 0 -> Py.int x = Qceiling x.
Proof.
  destruct x as [n d]. unfold Qle, Py.int, Qceiling, Qfloor, Qopp. simpl.
  intros H.
  rewrite <- (Z.opp_involutive n) at 1.
  rewrite Z.quot_opp_l by lia. f_equal.
  apply Z.quot_div_nonneg; lia.
Qed.

(** [int] does not depend on how the float is written. *)
Lemma int_comp (x y : Q) : x == y -> Py.int x = Py.int y.
Proof.
  intros H. destruct (Qlt_le_dec x 0) as [Hneg | Hpos].
  - rewrite !int_ceiling by lra. now apply Qceiling_comp.
  - rewrite !int_floor by lra. now apply Qfloor_comp.
Qed.

(** ** More on the color engine *)

(** The gamma-corrected byte of a channel in [0, 1]. *)
Lemma HSV_to_RGB_value (h s v : Q) :
  unit_interval s -> unit_interval v ->
  HSV_to_RGB h s v
  = ok (nth (Z.to_nat (Qfloor (255.0 * fst (fst (HSV_linear h s v))))) GAMMA8 0%Z,
        nth (Z.to_nat (Qfloor (255.0 * snd (fst (HSV_linear h s v))))) GAMMA8 0%Z,
        nth (Z.to_nat (Qfloor (255.0 * snd (HSV_linear h s v)))) GAMMA8 0%Z).
Proof.
  intros Hs Hv.
  destruct (HSV_linear_unit h s v Hs Hv) as [Hr [Hg Hb]].
  unfold HSV_to_RGB. destruct (HSV_linear h s v) as [[r g] b]. simpl in *.
  destruct (gamma_channel r Hr) as [Er _].
  destruct (gamma_channel g Hg) as [Eg _].
  destruct (gamma_channel b Hb) as [Eb _].
  rewrite Er. simpl. rewrite Eg. simpl. rewrite Eb. reflexivity.
Qed.

(** The sector selection does not depend on the brightness, and every
    channel grows with it. *)
Lemma HSV_linear_monotone (h s v1 v2 : Q) :
  unit_interval s -> v1 <= v2 ->
  fst (fst (HSV_linear h s v1)) <= fst (fst (HSV_linear h s v2))
  /\ snd (fst (HSV_linear h s v1)) <= snd (fst (HSV_linear h s v2))
  /\ snd (HSV_linear h s v1) <= snd (HSV_linear h s v2).
Proof.
  intros Hs Hv. destruct (sector_fraction h) as [Hf0 Hf1].
  set (f := h / 60.0 - inject_Z (Py.floor (h / 60.0))) in *.
  assert (Hsf : unit_interval (s * f))
    by (apply unit_mult; [assumption | unfold unit_interval; lra]).
  assert (Hsg : unit_interval (s * (1.0 - f)))
    by (apply unit_mult; [assumption | unfold unit_interval; lra]).
  unfold unit_interval in *.
  assert (Hp : v1 * (1.0 - s) <= v2 * (1.0 - s))
    by (apply Qmult_le_compat_r; lra).
  assert (Hq : v1 * (1.0 - s * f) <= v2 * (1.0 - s * f))
    by (apply Qmult_le_compat_r; lra).
  assert (Ht : v1 * (1.0 - s * (1.0 - f)) <= v2 * (1.0 - s * (1.0 - f)))
    by (apply Qmult_le_compat_r; lra).
  unfold HSV_linear. fold f.
  destruct (Qeq_bool s 0.0); [simpl; tauto|].
  repeat match goal with
         | |- context [if ?b then _ else _] => destruct b
         end; simpl; tauto.
Qed.

Lemma gamma_byte_monotone (c1 c2 : Q) :
  unit_interval c1 -> unit_interval c2 -> c1 <= c2 ->
  (nth (Z.to_nat (Qfloor (255.0 * c1))) GAMMA8 0
   <= nth (Z.to_nat (Qfloor (255.0 * c2))) GAMMA8 0)%Z.
Proof.
  intros H1 H2 Hle.
  pose proof (floor_unit_scaled c1 H1). pose proof (floor_unit_scaled c2 H2).
  assert (Qfloor (255.0 * c1) <= Qfloor (255.0 * c2))%Z
    by (apply Qfloor_resp_le; lra).
  apply GAMMA8_sorted; lia.
Qed.

(** X2.  Fading.  For a fixed hue and saturation, each of the three
    returned bytes is non-decreasing in the value: a smaller remaining
    fraction never makes any channel brighter. *)
Theorem HSV_to_RGB_monotone_in_value (h s v1 v2 : Q) :
  unit_interval s -> 0 <= v1 -> v1 <= v2 -> v2 <= 1 ->
  exists c1 c2,
    HSV_to_RGB h s v1 = ok c1 /\ HSV_to_RGB h s v2 = ok c2 /\ rgb_le c1 c2.
Proof.
  intros Hs H0 Hle H1.
  assert (Hv1 : unit_interval v1) by (unfold unit_interval; lra).
  assert (Hv2 : unit_interval v2) by (unfold unit_interval; lra).
  do 2 eexists.
  split; [apply HSV_to_RGB_value; assumption|].
  split; [apply HSV_to_RGB_value; assumption|].
  destruct (HSV_linear_unit h s v1 Hs Hv1) as [Ar [Ag Ab]].
  destruct (HSV_linear_unit h s v2 Hs Hv2) as [Br [Bg Bb]].
  destruct (HSV_linear_monotone h s v1 v2 Hs Hle) as [Mr [Mg Mb]].
  unfold rgb_le. simpl.
  repeat split; apply gamma_byte_monotone; assumption.
Qed.

Lemma HSV_to_RGB_monotone_in_value_witness :
  exists c1 c2,
    HSV_to_RGB 200 1 0.25 = ok c1 /\ HSV_to_RGB 200 1 0.75 = ok c2
    /\ rgb_le c1 c2.
Proof.
  apply (HSV_to_RGB_monotone_in_value 200 1 0.25 0.75);
    unfold unit_interval, Qle; simpl; lia.
Defined.

Lemma zero_scaled (v c : Q) : v == 0 -> 255.0 * (v * c) == 0.
Proof. intros H. rewrite H. ring. Qed.

Lemma zero_scaled_1 (v : Q) : v == 0 -> 255.0 * v == 0.
Proof. intros H. rewrite H. ring. Qed.

(** X3.  With value zero the conversion returns black for every hue and
    every saturation, in range or not. *)
Theorem HSV_to_RGB_zero_value (h s v : Q) :
  v == 0 -> HSV_to_RGB h s v = ok black.
Proof.
  intros Hv. unfold HSV_to_RGB, HSV_linear.
  destruct (Qeq_bool s 0.0);
    repeat match goal with
           | |- context [if ?b then _ else _] => destruct b
           end;
    cbv zeta;
    rewrite ?(int_zero _ (zero_scaled v _ Hv)),
            ?(int_zero _ (zero_scaled_1 v Hv));
    reflexivity.
Qed.

Lemma HSV_to_RGB_zero_value_witness :
  HSV_to_RGB 123 0.7 0 = ok black.
Proof. apply HSV_to_RGB_zero_value. reflexivity. Defined.

Ltac gamma_chain :=
  repeat match goal with
         | |- bind (raise _) _ = _ => reflexivity
         | |- bind (gamma ?i) _ = _ =>
             let E := fresh "E" in
             destruct (gamma_cases i) as [[? E] | E]; rewrite E; cbn [bind]
         end;
  try reflexivity.

(** X4.  A value too large for the table is not clamped: as soon as
    [255 v] reaches 256 the conversion raises [IndexError], for every hue
    and saturation. *)
Theorem HSV_to_RGB_too_bright (h s v : Q) :
  256 <= 255 * v -> HSV_to_RGB h s v = raise IndexError.
Proof.
  intros Hv.
  assert (Hraise : gamma (Py.int (255.0 * v)) = raise IndexError).
  { apply gamma_above. rewrite int_floor by lra.
    rewrite <- (Qfloor_Z 256). apply Qfloor_resp_le. unfold inject_Z. lra. }
  unfold HSV_to_RGB, HSV_linear.
  destruct (Qeq_bool s 0.0);
    repeat match goal with
           | |- context [if ?b then _ else _] => destruct b
           end;
    cbv zeta; rewrite ?Hraise; gamma_chain.
Qed.

Lemma HSV_to_RGB_too_bright_witness :
  HSV_to_RGB 90 1 1.5 = raise IndexError.
Proof.
  apply HSV_to_RGB_too_bright. unfold Qle; simpl; lia.
Defined.

Lemma gamma_negative (i : Z) :
  (-256 <= i < 0)%Z -> gamma i = ok (nth (Z.to_nat (256 + i)) GAMMA8 0%Z).
Proof.
  intros Hi. unfold gamma, Py.getitem. rewrite GAMMA8_length.
  destruct (i <? 0)%Z eqn:E; [|apply Z.ltb_ge in E; lia].
  replace ((0 <=? i + Z.of_nat 256) && (i + Z.of_nat 256 <? Z.of_nat 256))%Z
    with true.
  - do 2 f_equal. lia.
  - symmetry. apply andb_true_iff.
    split; [apply Z.leb_le | apply Z.ltb_lt]; lia.
Qed.

(** X5.  A negative value is not rejected either.  On the gray path, for
    [v] between -1 and -1/255, the table index [int(255 v)] is negative and
    counts from the end of the table: the result is the gray
    [GAMMA8[256 + ceil(255 v)]], so a slightly negative value gives almost
    full brightness. *)
Theorem HSV_to_RGB_negative_value_wraps (h s v : Q) :
  s == 0 -> -1 <= v -> 255 * v <= -1 ->
  let g := nth (Z.to_nat (256 + Qceiling (255 * v))) GAMMA8 0%Z in
  HSV_to_RGB h s v = ok (g, g, g).
Proof.
  intros Hs Hlo Hhi g.
  assert (Hz : Qeq_bool s 0.0 = true) by (apply Qeq_bool_iff; lra).
  assert (Hi : Py.int (255.0 * v) = Qceiling (255 * v)).
  { rewrite int_ceiling by lra. apply Qceiling_comp. lra. }
  assert (Hup : (Qceiling (255 * v) <= -1)%Z).
  { rewrite <- (Qceiling_Z (-1)). apply Qceiling_resp_le. unfold inject_Z. lra. }
  assert (Hdn : (-255 <= Qceiling (255 * v))%Z).
  { rewrite <- (Qceiling_Z (-255)). apply Qceiling_resp_le.
    unfold inject_Z. lra. }
  unfold HSV_to_RGB, HSV_linear. rewrite Hz, Hi.
  rewrite gamma_negative by lia. reflexivity.
Qed.

Lemma HSV_to_RGB_negative_value_wraps_witness :
  HSV_to_RGB 0 0 (-0.5) = ok (38, 38, 38)%Z.
Proof.
  apply (HSV_to_RGB_negative_value_wraps 0 0 (-0.5)).
  - reflexivity.
  - unfold Qle; simpl; lia.
  - unfold Qle; simpl; lia.
Defined.

(** X6.  The seam of the color wheel.  At full saturation, hue 360 (which
    [animate_rainbow] produces when the sine is 1) is served by the
    trailing [else] with a zero fraction and comes out as magenta
    [(g, 0, g)], while hue 0 is red [(g, 0, 0)], [g] being the gamma byte
    of the value. *)
Theorem HSV_to_RGB_seam (v : Q) :
  unit_interval v ->
  let g := nth (Z.to_nat (Qfloor (255 * v))) GAMMA8 0%Z in
  HSV_to_RGB 360.0 1.0 v = ok (g, 0, g)%Z
  /\ HSV_to_RGB 0.0 1.0 v = ok (g, 0, 0)%Z.
Proof.
  intros Hv g. unfold unit_interval in Hv.
  assert (Eg : gamma (Py.int (255.0 * v)) = ok g).
  { destruct (gamma_channel v Hv) as [E _]. rewrite E. unfold g.
    do 3 f_equal. apply Qfloor_comp. lra. }
  split.
  - unfold HSV_to_RGB, HSV_linear.
    replace (Qeq_bool 1.0 0.0) with false by reflexivity.
    replace (Py.floor (360.0 / 60.0)) with 6%Z by reflexivity.
    cbv zeta. cbn [Z.eqb Pos.eqb].
    rewrite Eg. cbn [bind].
    rewrite (int_zero (255.0 * (v * (1.0 - 1.0)))) by ring.
    replace (gamma 0) with (ok 0%Z) by reflexivity. cbn [bind].
    rewrite (int_comp _ (255.0 * v)), Eg; [reflexivity|].
    assert (H6 : 360.0 / 60.0 - inject_Z 6 == 0) by reflexivity.
    rewrite H6. ring.
  - unfold HSV_to_RGB, HSV_linear.
    replace (Qeq_bool 1.0 0.0) with false by reflexivity.
    replace (Py.floor (0.0 / 60.0)) with 0%Z by reflexivity.
    cbv zeta. cbn [Z.eqb].
    rewrite Eg. cbn [bind].
    assert (H0 : 0.0 / 60.0 - inject_Z 0 == 0) by reflexivity.
    rewrite (int_zero (255.0 * (v * (1.0 - 1.0 * (1.0 - (0.0 / 60.0 - inject_Z 0))))))
      by (rewrite H0; ring).
    replace (gamma 0) with (ok 0%Z) by reflexivity. cbn [bind].
    rewrite (int_zero (255.0 * (v * (1.0 - 1.0)))) by ring.
    reflexivity.
Qed.

Lemma HSV_to_RGB_seam_witness :
  HSV_to_RGB 360.0 1.0 0.5 = ok (36, 0, 36)%Z
  /\ HSV_to_RGB 0.0 1.0 0.5 = ok (36, 0, 0)%Z.
Proof.
  apply (HSV_to_RGB_seam 0.5). unfold unit_interval, Qle; simpl; lia.
Defined.

(** ** More on [lerp] *)




(** ** More on the calibration *)

Lemma ceiling_gt_iff (x : Q) (k : Z) :
  (Qceiling x > k)%Z <-> inject_Z k < x.
Proof.
  split; intros H.
  - destruct (Qlt_le_dec (inject_Z k) x) as [Hlt | Hle]; [assumption|].
    apply Qceiling_resp_le in Hle. rewrite Qceiling_Z in Hle. lia.
  - pose proof (Qle_ceiling x) as Hc.
    assert (Hk : inject_Z k < inject_Z (Qceiling x)) by lra.
    rewrite <- Zlt_Qlt in Hk. lia.
Qed.


(** X10.  The limits in human units.  The start-up ends in the threshold
    fault exactly when the threshold exceeds 3.96875 g (127 steps of
    1/32 g); in the time-limit fault exactly when the threshold is within
    that limit and the window exceeds 2.54 s (127 steps of 1/50 s); and it
    goes on to the main loop exactly when both are within their limits. *)
Theorem calibrate_limits (cfg : Config) :
  (calibrate cfg = ErrorSOS threshold_message
   <-> 3.96875 < TAP_THRESHOLD_G cfg)
  /\ (calibrate cfg = ErrorSOS time_limit_message
      <-> TAP_THRESHOLD_G cfg <= 3.96875 /\ 2.54 < TAP_TIME_LIMIT_S cfg)
  /\ ((exists tap_threshold time_limit,
         calibrate cfg = Calibrated tap_threshold time_limit)
      <-> TAP_THRESHOLD_G cfg <= 3.96875 /\ TAP_TIME_LIMIT_S cfg <= 2.54).
Proof.
  assert (Hne : threshold_message <> time_limit_message)
    by (vm_compute; discriminate).
  assert (Ha : (tap_threshold_code cfg > 127)%Z
               <-> 3.96875 < TAP_THRESHOLD_G cfg).
  { unfold tap_threshold_code, Py.ceil. rewrite ceiling_gt_iff.
    set (a := TAP_THRESHOLD_G cfg / (4.0 / 128.0)).
    assert (E : TAP_THRESHOLD_G cfg == a * (1 # 32)) by (unfold a; field).
    unfold inject_Z. split; intros H; lra. }
  assert (Hb : (time_limit_code cfg > 127)%Z
               <-> 2.54 < TAP_TIME_LIMIT_S cfg).
  { unfold time_limit_code, Py.ceil. rewrite ceiling_gt_iff.
    set (b := TAP_TIME_LIMIT_S cfg / (1.0 / 50.0)).
    assert (E : TAP_TIME_LIMIT_S cfg == b * (1 # 50)) by (unfold b; field).
    unfold inject_Z. split; intros H; lra. }
  destruct (calibrate_cases cfg) as [[H E] | [[H1 [H2 E]] | [H1 [H2 E]]]];
    rewrite E.
  - apply Ha in H. split; [tauto|]. split.
    + split; [intros K; inversion K; congruence | intros [K _]; lra].
    + split; [intros [a [b K]]; discriminate | intros [K _]; lra].
  - assert (Hg : ~ 3.96875 < TAP_THRESHOLD_G cfg) by (rewrite <- Ha; lia).
    apply Hb in H2. split.
    + split; [intros K; inversion K; congruence | intros K; contradiction].
    + split; [split; [intros _; split; lra | reflexivity]|].
      split; [intros [a [b K]]; discriminate | intros [_ K]; lra].
  - assert (Hg : ~ 3.96875 < TAP_THRESHOLD_G cfg) by (rewrite <- Ha; lia).
    assert (Ht : ~ 2.54 < TAP_TIME_LIMIT_S cfg) by (rewrite <- Hb; lia).
    split; [split; [discriminate | intros K; contradiction]|].
    split; [split; [discriminate | intros [_ K]; contradiction]|].
    split; [intros _; split; lra | intros _; do 2 eexists; reflexivity].
Qed.

(** ** More on the rainbow frame *)

Lemma setitem_split {A : Type} (a : list A) (i : nat) (x : A) :
  (i < List.length a)%nat ->
  Py.setitem a i x = ok (firstn i a ++ x :: skipn (S i) a).
Proof.
  revert i. induction a as [|hd tl IH]; intros i Hi; simpl in Hi; [lia|].
  destruct i as [|i]; [reflexivity|].
  cbn [Py.setitem]. rewrite IH by lia. reflexivity.
Qed.

Section FrameFacts.

Variable sin : Q -> Q.
Variable pi : Q.
Variable cfg : Config.

Lemma pixel_color_ok (a phase_offset remaining : Q) (i : nat) :
  unit_interval remaining ->
  exists c, pixel_color sin a phase_offset remaining i = ok c /\ byte_color c.
Proof.
  intros Hrem. unfold pixel_color. rewrite lerp_hue. cbn [bind].
  match goal with
  | |- context [HSV_to_RGB ?h 1.0 remaining] =>
      destruct (HSV_to_RGB_bytes h 1.0 remaining) as [r [g [b [E B]]]];
      [unfold unit_interval; lra | assumption |]
  end.
  exists (r, g, b). split; [exact E | exact B].
Qed.

(** The pixel loop over the indices [k, k+m) replaces exactly those
    entries, each by its own color. *)
Lemma animate_pixels_seq (a phase_offset remaining : Q) (m : nat) :
  unit_interval remaining ->
  forall k pixels,
    (k + m <= List.length pixels)%nat ->
    exists colors,
      Forall2 (fun i c =>
                 pixel_color sin a phase_offset remaining i = ok c
                 /\ byte_color c) (seq k m) colors
      /\ animate_pixels sin a phase_offset remaining (seq k m) pixels
         = ok (firstn k pixels ++ colors ++ skipn (k + m) pixels,
               set_pixel_events (seq k m) colors).
Proof.
  intros Hrem. induction m as [|m IH]; intros k pixels Hk.
  - exists []. split; [constructor|]. simpl.
    rewrite Nat.add_0_r, firstn_skipn. reflexivity.
  - destruct (pixel_color_ok a phase_offset remaining k Hrem) as [c [Ec Bc]].
    pose proof Ec as Ec'. unfold pixel_color in Ec'.
    rewrite lerp_hue in Ec'. cbn [bind] in Ec'.
    cbn [seq animate_pixels]. rewrite lerp_hue. cbn [bind].
    rewrite Ec'. cbn [bind].
    rewrite setitem_split by lia. cbn [bind].
    assert (Hlen : List.length (firstn k pixels) = k)
      by (apply firstn_length_le; lia).
    destruct (IH (S k) (firstn k pixels ++ c :: skipn (S k) pixels))
      as [colors [Hcol Erun]].
    { rewrite length_app, Hlen. cbn [List.length]. rewrite length_skipn. lia. }
    rewrite Erun. cbn [bind fst snd].
    exists (c :: colors). split; [constructor; [split|]; assumption|].
    f_equal. f_equal.
    + rewrite firstn_app, Hlen.
      replace (S k - k)%nat with 1%nat by lia.
      rewrite firstn_all2 by lia. cbn [firstn].
      rewrite skipn_app, Hlen.
      replace (S k + m - k)%nat with (S m) by lia.
      rewrite (skipn_all2 (firstn k pixels)) by lia.
      rewrite skipn_cons, skipn_skipn.
      replace (m + S k)%nat with (k + S m)%nat by lia.
      rewrite <- app_assoc. reflexivity.
Qed.

Lemma colors_unique (a phase_offset remaining : Q) (indices : list nat) :
  forall colors colors',
    Forall2 (fun i c =>
               pixel_color sin a phase_offset remaining i = ok c
               /\ byte_color c) indices colors ->
    Forall2 (fun i c =>
               pixel_color sin a phase_offset remaining i = ok c
               /\ byte_color c) indices colors' ->
    colors = colors'.
Proof.
  induction indices as [|i rest IH]; intros colors colors' H H';
    inversion H; inversion H'; subst; [reflexivity|].
  f_equal; [|apply IH; assumption].
  match goal with
  | H1 : _ = ok ?x /\ _, H2 : _ = ok ?y /\ _ |- ?x = ?y =>
      destruct H1 as [H1 _]; destruct H2 as [H2 _]; congruence
  end.
Qed.

Lemma animate_rainbow_frame_of (pixels : list rgb) (current remaining : Q) :
  pixels <> [] -> unit_interval remaining ->
  let n := List.length pixels in
  let a := 2.0 * pi * ANIMATION_FREQ_HZ cfg * current in
  let phase_offset := (2.0 * pi) / inject_Z (Z.of_nat n) in
  exists frame,
    Forall2 (fun i c =>
               pixel_color sin a phase_offset remaining i = ok c
               /\ byte_color c) (seq 0 n) frame
    /\ animate_rainbow sin pi cfg pixels current remaining
       = ok (frame, set_pixel_events (seq 0 n) frame).
Proof.
  intros Hne Hrem n a phase_offset. unfold animate_rainbow. fold n.
  rewrite truediv_ok.
  - cbn [bind]. fold a. fold phase_offset.
    destruct (animate_pixels_seq a phase_offset remaining n Hrem 0 pixels)
      as [frame [Hcol E]]; [simpl; unfold n; lia|].
    exists frame. split; [exact Hcol|]. rewrite E.
    cbn [firstn app]. change (0 + n)%nat with (List.length pixels).
    rewrite skipn_all, app_nil_r. reflexivity.
  - destruct pixels as [|p tl]; [contradiction|].
    intros H. unfold Qeq in H. simpl in H. lia.
Qed.

End FrameFacts.

(** X11.  A rainbow frame overwrites the whole strip.  On a non-empty
    strip with a brightness in [0, 1], [animate_rainbow] assigns every
    pixel exactly once, in index order, the color computed from that
    pixel's own index, each color made of three bytes; the frame has the
    length of the strip and is the same whatever the strip showed
    before. *)
Theorem animate_rainbow_overwrites (sin : Q -> Q) (pi : Q) (cfg : Config)
    (pixels pixels' : list rgb) (current remaining : Q) :
  pixels <> [] -> unit_interval remaining ->
  List.length pixels' = List.length pixels ->
  let n := List.length pixels in
  let a := 2.0 * pi * ANIMATION_FREQ_HZ cfg * current in
  let phase_offset := (2.0 * pi) / inject_Z (Z.of_nat n) in
  exists frame,
    animate_rainbow sin pi cfg pixels current remaining
    = ok (frame, set_pixel_events (seq 0 n) frame)
    /\ animate_rainbow sin pi cfg pixels' current remaining
       = ok (frame, set_pixel_events (seq 0 n) frame)
    /\ List.length frame = n
    /\ Forall2 (fun i c =>
                  pixel_color sin a phase_offset remaining i = ok c
                  /\ byte_color c) (seq 0 n) frame.
Proof.
  intros Hne Hrem Hlen n a phase_offset.
  destruct (animate_rainbow_frame_of sin pi cfg pixels current remaining
              Hne Hrem) as [frame [Hcol E]].
  assert (Hne' : pixels' <> []).
  { intros H0. rewrite H0 in Hlen. destruct pixels; [contradiction|].
    discriminate. }
  destruct (animate_rainbow_frame_of sin pi cfg pixels' current remaining
              Hne' Hrem) as [frame' [Hcol' E']].
  rewrite Hlen in Hcol', E'.
  assert (frame' = frame) by (eapply colors_unique; eassumption).
  subst frame'. exists frame. split; [exact E|]. split; [exact E'|].
  split; [|exact Hcol].
  apply Forall2_length in Hcol. rewrite length_seq in Hcol.
  symmetry. exact Hcol.
Qed.

Lemma animate_rainbow_overwrites_witness :
  exists frame,
    animate_rainbow (fun _ => 0) 3.14 sketch_config (repeat black 10) 0.25 0.5
    = ok (frame, set_pixel_events (seq 0 10) frame)
    /\ animate_rainbow (fun _ => 0) 3.14 sketch_config (repeat red 10) 0.25 0.5
       = ok (frame, set_pixel_events (seq 0 10) frame)
    /\ List.length frame = 10%nat.
Proof.
  destruct (animate_rainbow_overwrites (fun _ => 0) 3.14 sketch_config
              (repeat black 10) (repeat red 10) 0.25 0.5)
    as [frame [E [E' [L _]]]].
  - simpl. discriminate.
  - unfold unit_interval, Qle; simpl; lia.
  - reflexivity.
  - exists frame. split; [exact E|]. split; [exact E'|]. exact L.
Defined.

(** X12.  With a brightness in [0, 1], [animate_rainbow] raises exactly
    when the strip has no pixel, and then it is the division
    [2 pi / pixels.n] that raises [ZeroDivisionError]. *)
Theorem animate_rainbow_raises_iff_empty (sin : Q -> Q) (pi : Q)
    (cfg : Config) (pixels : list rgb) (current remaining : Q) :
  unit_interval remaining ->
  ((exists e, animate_rainbow sin pi cfg pixels current remaining = raise e)
   <-> pixels = [])
  /\ (pixels = [] ->
      animate_rainbow sin pi cfg pixels current remaining
      = raise ZeroDivisionError).
Proof.
  intros Hrem.
  assert (Hempty : pixels = [] ->
                   animate_rainbow sin pi cfg pixels current remaining
                   = raise ZeroDivisionError).
  { intros H0. subst pixels. reflexivity. }
  split; [|exact Hempty]. split.
  - intros [e He]. destruct pixels as [|p tl]; [reflexivity|].
    destruct (animate_rainbow_frame_of sin pi cfg (p :: tl) current remaining)
      as [frame [_ E]]; [discriminate | assumption |].
    rewrite E in He. discriminate.
  - intros H0. eexists. apply Hempty. exact H0.
Qed.

Lemma animate_rainbow_raises_iff_empty_witness :
  animate_rainbow (fun _ => 0) 3.14 sketch_config [] 0.25 0.5
  = raise ZeroDivisionError.
Proof.
  apply (animate_rainbow_raises_iff_empty (fun _ => 0) 3.14 sketch_config
           [] 0.25 0.5).
  - unfold unit_interval, Qle; simpl; lia.
  - reflexivity.
Defined.

(** ** More on the main loop *)

Section LoopMore.

Variable sin : Q -> Q.
Variable pi : Q.
Variable cfg : Config.

(** An iteration in which no time remains: the strip is filled with
    black and written, and nothing else is drawn. *)
Lemma loop_body_idle (st : LoopState) (current : Q) (single : bool) :
  pixels_animate st - (current - last st) <= 0 ->
  loop_body sin pi cfg st current single
  = ok ({| last := current;
           pixels_animate := if single then STEP_FLASH_S cfg else 0;
           pixels := fill (pixels st) black |},
        [Fill black; Write (fill (pixels st) black); Sleep 0.01]).
Proof.
  intros H. unfold loop_body.
  destruct (max0_cases (pixels_animate st - (current - last st)))
    as [[Hpos E] | [Hneg E]]; [lra|].
  rewrite E. reflexivity.
Qed.






(** X13.  Without a tap the strip stays dark.  From a state with no time
    remaining, every run without taps (clock not going backwards)
    completes, keeps the remaining time at 0, and in each iteration does
    nothing to the strip but fill it with black and write it: no pixel is
    ever set through the color engine. *)
Theorem idle_stays_dark (st : LoopState) (inputs : list (Q * bool)) :
  pixels_animate st <= 0 ->
  clock_monotone (last st) inputs ->
  no_taps inputs ->
  exists st' trace,
    run sin pi cfg st inputs = ok (st', trace)
    /\ pixels_animate st' <= 0
    /\ (inputs <> [] -> pixels_animate st' = 0)
    /\ trace
       = map (fun _ => [Fill black;
                        Write (repeat black (List.length (pixels st)));
                        Sleep 0.01]) inputs.
Proof.
  revert st. induction inputs as [|[current single] rest IH];
    intros st Hpa Hclk Htaps.
  - do 2 eexists. split; [reflexivity|]. split; [assumption|].
    split; [intros H; contradiction | reflexivity].
  - destruct Hclk as [Hc Hrest].
    inversion Htaps as [|? ? Hs Htaps']; subst. simpl in Hs. subst single.
    cbn [run]. rewrite loop_body_idle by lra. cbn [bind fst snd].
    destruct (IH {| last := current; pixels_animate := 0;
                    pixels := fill (pixels st) black |})
      as [st' [trace [E [Hle [Hz Htr]]]]]; try assumption.
    { cbn [pixels_animate]. lra. }
    rewrite E. cbn [bind fst snd]. do 2 eexists.
    split; [reflexivity|]. split; [assumption|]. split.
    + intros _. destruct rest as [|x rest'].
      * inversion E. reflexivity.
      * apply Hz. discriminate.
    + rewrite Htr. cbn [pixels map]. rewrite fill_length, fill_repeat.
      reflexivity.
Qed.

End LoopMore.

Lemma idle_stays_dark_witness :
  exists st' trace,
    run (fun _ => 0) 3.14 sketch_config
      {| last := 0; pixels_animate := 0; pixels := repeat red 10 |}
      [(0.01, false); (0.02, false)]
    = ok (st', trace)
    /\ pixels_animate st' <= 0
    /\ trace = [[Fill black; Write (repeat black 10); Sleep 0.01];
                [Fill black; Write (repeat black 10); Sleep 0.01]].
Proof.
  destruct (idle_stays_dark (fun _ => 0) 3.14 sketch_config
              {| last := 0; pixels_animate := 0; pixels := repeat red 10 |}
              [(0.01, false); (0.02, false)])
    as [st' [trace [E [Hle [_ Htr]]]]].
  - unfold Qle; simpl; lia.
  - simpl. repeat split; unfold Qle; simpl; lia.
  - repeat constructor.
  - exists st', trace. split; [exact E|]. split; [exact Hle | exact Htr].
Defined.

Section LoopTrace.

Variable sin : Q -> Q.
Variable pi : Q.
Variable cfg : Config.

Lemma set_pixel_events_no_write (indices : list nat) (colors : list rgb) :
  existsb is_write (set_pixel_events indices colors) = false.
Proof.
  unfold set_pixel_events.
  induction (combine indices colors) as [|ic l IH]; [reflexivity|].
  simpl. exact IH.
Qed.

(** The shape of an iteration's events: some drawing without any write,
    then one write of the buffer as it now stands, then the sleep. *)
Lemma loop_body_events (st : LoopState) (current : Q) (single : bool) :
  pixels st <> [] ->
  last st <= current ->
  (0 < pixels_animate st -> pixels_animate st <= STEP_FLASH_S cfg) ->
  exists st' drawing,
    loop_body sin pi cfg st current single
    = ok (st', drawing ++ [Write (pixels st'); Sleep 0.01])
    /\ existsb is_write drawing = false
    /\ List.length (pixels st') = List.length (pixels st).
Proof.
  intros Hne Hclk Hpa.
  destruct (max0_cases (pixels_animate st - (current - last st)))
    as [[Hpos E] | [Hneg E]].
  - unfold loop_body. rewrite E.
    assert (Hgt : Py.gt (pixels_animate st - (current - last st)) 0 = true)
      by (unfold Py.gt; apply lt_true_iff; exact Hpos).
    rewrite Hgt.
    assert (Hle : pixels_animate st <= STEP_FLASH_S cfg) by (apply Hpa; lra).
    rewrite truediv_ok by lra. cbn [bind].
    destruct (animate_rainbow_frame_of sin pi cfg (pixels st) current
                ((pixels_animate st - (current - last st)) / STEP_FLASH_S cfg)
                Hne) as [frame [Hcol Ea]].
    { split; [apply Qle_shift_div_l; lra | apply Qle_shift_div_r; lra]. }
    rewrite Ea. cbn [bind fst snd].
    eexists (Build_LoopState _ _ frame), _.
    split; [reflexivity|]. cbn [pixels].
    split; [apply set_pixel_events_no_write|].
    apply Forall2_length in Hcol. rewrite length_seq in Hcol.
    symmetry. exact Hcol.
  - rewrite loop_body_idle by exact Hneg.
    exists {| last := current;
              pixels_animate := if single then STEP_FLASH_S cfg else 0;
              pixels := fill (pixels st) black |}, [Fill black].
    split; [reflexivity|]. split; [reflexivity|]. apply fill_length.
Qed.

(** Every run from a state in range completes, keeps the range and the
    strip length, and each of its iterations has the shape above. *)
Lemma run_frames (inputs : list (Q * bool)) :
  0 <= STEP_FLASH_S cfg ->
  forall st,
    pixels st <> [] ->
    remaining_in_range cfg st ->
    clock_monotone (last st) inputs ->
    exists st' trace,
      run sin pi cfg st inputs = ok (st', trace)
      /\ remaining_in_range cfg st'
      /\ List.length (pixels st') = List.length (pixels st)
      /\ List.length trace = List.length inputs
      /\ Forall (fun evs =>
                   exists drawing frame,
                     evs = drawing ++ [Write frame; Sleep 0.01]
                     /\ existsb is_write drawing = false
                     /\ List.length frame = List.length (pixels st)) trace.
Proof.
  intros HF. induction inputs as [|[current single] rest IH];
    intros st Hne [Hlo Hhi] Hclk.
  - do 2 eexists. split; [reflexivity|]. split; [split; assumption|].
    split; [reflexivity|]. split; [reflexivity | constructor].
  - destruct Hclk as [Hc Hrest].
    destruct (loop_body_events st current single Hne Hc)
      as [st1 [drawing [E [Hnw Hl]]]]; [intros _; exact Hhi|].
    destruct (loop_body_spec sin pi cfg st current single Hne Hc)
      as [st1' [evs' [E' [El [_ [Ep _]]]]]]; [intros _; exact Hhi|].
    rewrite E in E'. inversion E'; subst st1' evs'. clear E'.
    cbn [run]. rewrite E. cbn [bind fst snd].
    destruct (IH st1) as [st' [trace [Er [Hr [Hlen [Htl Hall]]]]]].
    + intros H0. rewrite H0 in Hl. simpl in Hl.
      destruct (pixels st); [contradiction | discriminate].
    + unfold remaining_in_range. rewrite Ep. destruct single; [lra|].
      destruct (max0_cases (pixels_animate st - (current - last st)))
        as [[Hpos Em] | [Hneg Em]]; rewrite Em; lra.
    + rewrite El. assumption.
    + rewrite Er. cbn [bind fst snd]. do 2 eexists.
      split; [reflexivity|]. split; [assumption|].
      split; [congruence|]. split; [simpl; congruence|].
      constructor.
      * exists drawing, (pixels st1). split; [reflexivity|].
        split; assumption.
      * rewrite Hl in Hall. exact Hall.
Qed.

End LoopTrace.

(** X14.  The frame buffer is fixed at start-up.  Whatever the taps, with
    a clock that does not go backwards and a non-negative flash duration,
    every run of the main loop from start-up completes with the ten
    pixels it started with, and each iteration writes the strip exactly
    once, a frame of ten pixels, after all its drawing and just before its
    10 ms sleep. *)
Theorem strip_written_once_per_iteration (sin : Q -> Q) (pi : Q)
    (cfg : Config) (now : Q) (st0 : LoopState) (evs0 : list event)
    (inputs : list (Q * bool)) :
  0 <= STEP_FLASH_S cfg ->
  boot cfg now = (InMainLoop st0, evs0) ->
  clock_monotone now inputs ->
  exists st' trace,
    run sin pi cfg st0 inputs = ok (st', trace)
    /\ List.length (pixels st') = 10%nat
    /\ List.length trace = List.length inputs
    /\ Forall (fun evs =>
                 exists drawing frame,
                   evs = drawing ++ [Write frame; Sleep 0.01]
                   /\ existsb is_write drawing = false
                   /\ List.length frame = 10%nat) trace.
Proof.
  intros HF Hboot Hclk.
  assert (Hst : st0 = {| last := now; pixels_animate := 0;
                         pixels := fill (repeat black 10) black |}).
  { unfold boot in Hboot. destruct (calibrate cfg); inversion Hboot.
    reflexivity. }
  subst st0.
  destruct (run_frames sin pi cfg inputs HF
              {| last := now; pixels_animate := 0;
                 pixels := fill (repeat black 10) black |})
    as [st' [trace [E [_ [Hl [Htl Hall]]]]]].
  - simpl. discriminate.
  - unfold remaining_in_range. simpl. lra.
  - exact Hclk.
  - exists st', trace. split; [exact E|]. split; [exact Hl|].
    split; [exact Htl | exact Hall].
Qed.

Lemma strip_written_once_per_iteration_witness :
  exists st' trace,
    run (fun _ => 0) 3.14 sketch_config
      {| last := 0; pixels_animate := 0; pixels := repeat black 10 |}
      [(0.01, true); (0.02, false)]
    = ok (st', trace)
    /\ List.length (pixels st') = 10%nat
    /\ List.length trace = 2%nat.
Proof.
  destruct (strip_written_once_per_iteration (fun _ => 0) 3.14 sketch_config
              0 {| last := 0; pixels_animate := 0;
                   pixels := repeat black 10 |}
              (snd (boot sketch_config 0)) [(0.01, true); (0.02, false)])
    as [st' [trace [E [Hl [Htl _]]]]].
  - unfold Qle; simpl; lia.
  - reflexivity.
  - simpl. repeat split; unfold Qle; simpl; lia.
  - exists st', trace. split; [exact E|]. split; [exact Hl | exact Htl].
Defined.

Section Decay.

Variable sin : Q -> Q.
Variable pi : Q.
Variable cfg : Config.


End Decay.





(** ** The fault loop *)

